(** * Riemann surface visualizer: the sheet partition of [plot_riemann]

    A shallow embedding of [riemann_surface_visualizer.py].

    Number model.  The script computes with IEEE binary64 values; here
    every finite float is a real number ([R]) and every arithmetic
    operation is exact, so [np.pi] is [PI] and rounding is left out.  The
    non-finite results that the script can produce (a division of an array
    by [order = 0], and the [np.nan] mask) are kept, in [npfloat].
    Python integers are [Z].  Arrays of rank two are lists of rows.

    Effects.  The calls into NumPy's grid constructors and into Matplotlib
    are recorded, in program order, in a trace; a Python exception stops
    the run and keeps the trace built so far.

    Scope.  The run of [plot_riemann] has the exception of the script's own
    arithmetic (the division in the z limit) and no exception from inside
    the libraries.  NumPy and Matplotlib raise for arguments outside the
    calls described by [modelled_call] (an [order] or [sheets] that does
    not fit int64, a title that is parsed as mathtext and is not valid),
    and [theta_max] stands for a finite Python float or [None].  A
    statement about the exceptions or the completion of a call of
    [plot_riemann] with arbitrary arguments carries [modelled_call] as a
    hypothesis; statements about the arrays do not depend on it. *)

From Stdlib Require Import Reals ZArith List Ascii String Lra Lia Bool.
From Stdlib Require Import DecimalString.
Import ListNotations.

Local Open Scope R_scope.

(** ** Comparisons on floats as booleans *)

Definition Rltb (x y : R) : bool := if Rlt_dec x y then true else false.
Definition Rgtb (x y : R) : bool := Rltb y x.

(** Truncation of a float toward zero, as an integer. *)
Definition trunc (x : R) : Z := if Rltb x 0 then Zceil x else Zfloor x.

(** ** NumPy scalars and element operations *)

Module NumPy.

(** A float64 array element: finite, an infinity, or NaN. *)
Inductive npfloat : Type :=
| Fin (x : R)
| PInf
| NInf
| NaN.

(** [a / n] for a finite float [a] and a Python int [n]: NumPy does not
    raise on a zero divisor, it yields an infinity or NaN. *)
Definition true_divide (a : R) (n : Z) : npfloat :=
  if (n =? 0)%Z then
    if Rltb 0 a then PInf else if Rltb a 0 then NInf else NaN
  else Fin (a / IZR n).

(** [h + c] for a finite constant [c]. *)
Definition add (h : npfloat) (c : R) : npfloat :=
  match h with
  | Fin x => Fin (x + c)
  | other => other
  end.

(** [a // b], for a non-zero finite [b]: a float holding the floor. *)
Definition floor_divide (a b : R) : R := IZR (Zfloor (a / b)).

(** The integers of an int64 array. *)
Definition int64_min : Z := (- 2 ^ 63)%Z.
Definition int64_max : Z := (2 ^ 63 - 1)%Z.

Definition fits_int64 (n : Z) : bool :=
  ((int64_min <=? n) && (n <=? int64_max))%Z.

(** [x.astype(int)] on a float64 array: conversion to int64 by truncation
    toward zero; a value whose truncation does not fit int64 becomes
    [int64_min] (the result of the conversion instruction on x86-64; NumPy
    warns and does not raise). *)
Definition astype_int (x : R) : Z :=
  if fits_int64 (trunc x) then trunc x else int64_min.

(** [a % n] on an int64 array, for a Python int [n] that fits int64: the
    remainder takes the sign of the divisor, and a zero divisor gives 0
    (with a warning, no exception).  For an [n] that does not fit int64
    NumPy raises before any element is computed; see [modelled_call]. *)
Definition mod_ (a n : Z) : Z :=
  if (n =? 0)%Z then 0%Z else (a mod n)%Z.

(** [np.where(c, a, b)] at one element. *)
Definition where_ (c : bool) (a b : npfloat) : npfloat :=
  if c then a else b.

(** [np.linspace(start, stop, num)]: [num] evenly spaced samples, the
    sample of index [i] being [start + i * step] with
    [step = (stop - start) / (num - 1)]. *)
Definition linspace (start stop : R) (num : nat) : list R :=
  map (fun i => start + INR i * ((stop - start) / INR (num - 1)))
      (seq 0 num).

(** [np.log2] of a Python int that NumPy can hold in a 64-bit integer
    (beyond, NumPy raises a type error, which is outside this model). *)
Definition log2 (n : Z) : npfloat :=
  if (0 <? n)%Z then Fin (ln (IZR n) / ln 2)
  else if (n =? 0)%Z then NInf else NaN.

End NumPy.
Import NumPy.

(** ** Arrays of rank two *)

Section Arrays.

Context {A B C : Type}.

Definition arr (T : Type) : Type := list (list T).

(** Element [i, j], when it exists. *)
Definition lookup2 {T : Type} (a : arr T) (i j : nat) : option T :=
  match nth_error a i with
  | Some row => nth_error row j
  | None => None
  end.

Fixpoint zip_with (f : A -> B -> C) (l1 : list A) (l2 : list B) : list C :=
  match l1, l2 with
  | x :: l1', y :: l2' => f x y :: zip_with f l1' l2'
  | _, _ => []
  end.

(** A unary element-wise operation. *)
Definition amap (f : A -> B) (a : arr A) : arr B := map (map f) a.

End Arrays.

(** A binary element-wise operation on arrays of the same shape. *)
Definition amap2 {A B C : Type} (f : A -> B -> C) (a : arr A) (b : arr B)
  : arr C :=
  zip_with (zip_with f) a b.

(** [np.meshgrid(x, y)] with the default [xy] indexing: both results have
    one row per element of [y] and one column per element of [x]. *)
Definition meshgrid (x y : list R) : arr R * arr R :=
  (map (fun _ => x) y, map (fun yi => map (fun _ => yi) x) y).

(** ** Python helpers *)

(** [str(n)] / [%d] / [{n}] of a Python int. *)
Definition str_of_int (n : Z) : string := NilZero.string_of_int (Z.to_int n).

(** [s * n] on strings: [n] copies of [s], none when [n <= 0]. *)
Definition str_mul (s : string) (n : Z) : string :=
  String.concat "" (repeat s (Z.to_nat n)).

(** [range(n - 1, -1, -1)]: [n-1, n-2, ..., 0], empty when [n <= 0]. *)
Definition range_down (n : Z) : list Z :=
  map (fun k => (n - 1 - Z.of_nat k)%Z) (seq 0 (Z.to_nat n)).

(** ** Traces, exceptions and the run monad *)

Inductive exn : Type :=
| ZeroDivisionError
| OverflowError
| ValueError.

(** The observable calls of one run, with their arguments. *)
Inductive event : Type :=
| np_linspace (start stop : R) (num : nat)
| np_meshgrid (columns rows : nat)
| plt_figure (width height : R)
| set_window_title (s : string)
| add_subplot (code : Z) (projection : string)
| view_init (elev azim : R)
| set_box_aspect (x y z : R)
| plot_surface (Xm Ym Hm : arr npfloat) (rstride cstride : nat) (alpha : R)
| set_zticks (ticks : list R)
| set_zticklabels (labels : list string)
| set_xlabel (s : string)
| set_ylabel (s : string)
| set_zlabel (s : string)
| set_title (s : string)
| set_zlim (bottom top : R)
| tight_layout
| plt_show.

(** A run yields the trace of its calls and either the exception that
    stopped it or its value. *)
Definition M (T : Type) : Type := list event * (exn + T).

Definition ret {T : Type} (x : T) : M T := ([], inr x).

Definition bind {T U : Type} (m : M T) (f : T -> M U) : M U :=
  match m with
  | (t, inl e) => (t, inl e)
  | (t, inr x) => let (t', r) := f x in (t ++ t', r)
  end.

Definition emit (e : event) : M unit := ([e], inr tt).

Definition raise {T : Type} (e : exn) : M T := ([], inl e).

Declare Scope run_scope.
Delimit Scope run_scope with run.
Notation "x <- m ;; k" := (bind m (fun x => k))
  (at level 61, m at next level, right associativity) : run_scope.
Notation "m ;; k" := (bind m (fun _ => k))
  (at level 61, right associativity) : run_scope.

Local Open Scope run_scope.

(** A [for] loop over a list. *)
Fixpoint for_ {T : Type} (l : list T) (body : T -> M unit) : M unit :=
  match l with
  | [] => ret tt
  | x :: l' => body x ;; for_ l' body
  end.

Definition trace {T : Type} (m : M T) : list event := fst m.
Definition outcome {T : Type} (m : M T) : exn + T := snd m.

(** [a / n] for a Python float [a] and a Python int [n]: a zero divisor
    raises.  (A NumPy scalar [a] would give an infinity or NaN instead;
    [theta_max] is taken to be a Python float.) *)
Definition py_truediv (a : R) (n : Z) : M R :=
  if (n =? 0)%Z then raise ZeroDivisionError
  else ret (a / IZR n).

(** [int(x)] of a float: truncation toward zero into an unbounded Python
    int; an infinity raises [OverflowError] and NaN raises [ValueError]. *)
Definition py_int (x : npfloat) : M Z :=
  match x with
  | Fin v => ret (trunc v)
  | PInf | NInf => raise OverflowError
  | NaN => raise ValueError
  end.

(** ** The arrays of one call

    [order], [theta_max] and [sheets] are the values after the defaults
    have been filled in. *)

Section Surface.

Variable order : Z.
Variable theta_max : R.
Variable sheets : Z.

Definition r : list R := linspace 0.15 2.0 160.
Definition th : list R := linspace 0.0 theta_max 1600.
Definition Rm : arr R := fst (meshgrid r th).
Definition TH : arr R := snd (meshgrid r th).

Definition X : arr R := amap2 (fun rho t => rho * cos t) Rm TH.
Definition Y : arr R := amap2 (fun rho t => rho * sin t) Rm TH.
Definition H : arr npfloat := amap (fun t => true_divide t order) TH.

Definition sheet_idx : arr Z :=
  amap (fun q => mod_ (astype_int q) sheets)
       (amap (fun t => floor_divide t (2 * PI)) TH).

Definition gap : R := 1e-3.

Section Pass.

(** One iteration of the drawing loop, for sheet [s]. *)
Variable s : Z.

Definition lo : R := 2 * PI * IZR s + gap.
Definition hi : R := 2 * PI * IZR (s + 1) - gap.

Definition in_sheet : arr bool :=
  amap2 andb
        (amap2 andb
               (amap (fun k => (k =? s)%Z) sheet_idx)
               (amap (fun t => Rgtb t lo) TH))
        (amap (fun t => Rltb t hi) TH).

Definition Xm : arr npfloat :=
  amap2 (fun c x => where_ c (Fin x) NaN) in_sheet X.
Definition Ym : arr npfloat :=
  amap2 (fun c y => where_ c (Fin y) NaN) in_sheet Y.
Definition Hm : arr npfloat :=
  amap2 (fun c h => where_ c (add h (0.03 * IZR s)) NaN) in_sheet H.

End Pass.

End Surface.

(** ** [plot_riemann] *)

Definition plot_riemann (order : Z) (theta_max : option R)
    (sheets : option Z) (title : string) : M unit :=
  let theta_max :=
    match theta_max with None => 2 * PI * IZR order | Some t => t end in
  let sheets := match sheets with None => order | Some n => n end in
  emit (np_linspace 0.15 2.0 160) ;;
  emit (np_linspace 0.0 theta_max 1600) ;;
  emit (np_meshgrid 160 1600) ;;
  emit (plt_figure 7 6) ;;
  emit (set_window_title
          ("Riemann Surface Visualizer (order=" ++ str_of_int order ++ ")")) ;;
  emit (add_subplot 111 "3d") ;;
  emit (view_init 25 35) ;;
  emit (set_box_aspect 1 1 0.6) ;;
  for_ (range_down sheets) (fun s =>
    emit (plot_surface (Xm theta_max sheets s)
                       (Ym theta_max sheets s)
                       (Hm order theta_max sheets s)
                       30 30 0.9)) ;;
  emit (set_zticks [0; 0.5 * PI; 1 * PI; 1.5 * PI; 2 * PI]) ;;
  emit (set_zticklabels
          ["$0$"; "$\frac{\pi}{2}$"; "$\pi$"; "$\frac{3\pi}{2}$"; "$2\pi$"]%string) ;;
  emit (set_xlabel "Re(z)") ;;
  emit (set_ylabel "Im(z)") ;;
  emit (set_zlabel ("z ~ $\theta/{" ++ str_of_int order ++ "}$")) ;;
  emit (set_title title) ;;
  top <- py_truediv theta_max order ;;
  emit (set_zlim 0 (top + 0.1 * IZR (sheets - 1))) ;;
  emit tight_layout ;;
  emit plt_show.

(** ** The driver *)

Definition orders : list Z := [2; 4; 8; 16]%Z.

Definition root_sign (k : Z) : string := str_mul "√" k.

Definition ttl (k order : Z) : string :=
  ("Riemann surface of " ++ root_sign k ++ "z (" ++ str_of_int order
     ++ " sheets)")%string.

Definition main : M unit :=
  for_ orders (fun order =>
    k <- py_int (log2 order) ;;
    plot_riemann order None None (ttl k order)).

(** ** Vocabulary of the properties *)

(** The parameters after lines 33-36 have filled in the defaults. *)
Definition theta_max_of (order : Z) (tm : option R) : R :=
  match tm with None => 2 * PI * IZR order | Some t => t end.

Definition sheets_of (order : Z) (sh : option Z) : Z :=
  match sh with None => order | Some n => n end.

(** The calls of one run, grouped by the part of the body that makes
    them. *)
Definition grid_events (theta_max : R) : list event :=
  [ np_linspace 0.15 2.0 160; np_linspace 0.0 theta_max 1600;
    np_meshgrid 160 1600 ].

Definition figure_events (order : Z) : list event :=
  [ plt_figure 7 6;
    set_window_title
      ("Riemann Surface Visualizer (order=" ++ str_of_int order ++ ")");
    add_subplot 111 "3d"; view_init 25 35; set_box_aspect 1 1 0.6 ].

Definition surface_event (order : Z) (theta_max : R) (sheets s : Z) : event :=
  plot_surface (Xm theta_max sheets s) (Ym theta_max sheets s)
               (Hm order theta_max sheets s) 30 30 0.9.

Definition label_events (order : Z) (title : string) : list event :=
  [ set_zticks [0; 0.5 * PI; 1 * PI; 1.5 * PI; 2 * PI];
    set_zticklabels
      ["$0$"; "$\frac{\pi}{2}$"; "$\pi$"; "$\frac{3\pi}{2}$"; "$2\pi$"]%string;
    set_xlabel "Re(z)"; set_ylabel "Im(z)";
    set_zlabel ("z ~ $\theta/{" ++ str_of_int order ++ "}$");
    set_title title ].

Definition final_events (order : Z) (theta_max : R) (sheets : Z) : list event :=
  [ set_zlim 0 (theta_max / IZR order + 0.1 * IZR (sheets - 1));
    tight_layout; plt_show ].

(** A text without a dollar sign: Matplotlib draws it as it is and does
    not parse it as mathtext. *)
Fixpoint plain_text (s : string) : bool :=
  match s with
  | EmptyString => true
  | String c s' => negb (Ascii.eqb c "$"%char) && plain_text s'
  end.

(** The calls that the run model covers: [order] and [sheets] fit int64
    and the title is plain text. *)
Definition modelled_call (order : Z) (sh : option Z) (title : string)
  : bool :=
  fits_int64 order && fits_int64 (sheets_of order sh) && plain_text title.


Definition is_plot_surface (e : event) : bool :=
  match e with plot_surface _ _ _ _ _ _ => true | _ => false end.

(** The number of surfaces that a run has drawn. *)
Definition surfaces_drawn (t : list event) : nat :=
  List.length (filter is_plot_surface t).

(** The sheet index computed for the angle [t]. *)
Definition idx_at (sheets : Z) (t : R) : Z :=
  mod_ (astype_int (floor_divide t (2 * PI))) sheets.

(** The mask of sheet [s] at the angle [t]. *)
Definition inside_at (sheets s : Z) (t : R) : bool :=
  ((idx_at sheets t =? s)%Z && Rgtb t (lo s)) && Rltb t (hi s).

(** Sheet [s] leaves the mesh point [(i, j)] out: its mask is false there
    and the three arrays handed to [plot_surface] hold NaN there. *)
Definition excluded (order : Z) (tm : R) (sheets s : Z) (i j : nat) : Prop :=
  lookup2 (in_sheet tm sheets s) i j = Some false /\
  lookup2 (Xm tm sheets s) i j = Some NaN /\
  lookup2 (Ym tm sheets s) i j = Some NaN /\
  lookup2 (Hm order tm sheets s) i j = Some NaN.

Definition is_show (e : event) : bool :=
  match e with plt_show => true | _ => false end.

(** The number of figures that a run has shown. *)
Definition figures_shown (t : list event) : nat :=
  List.length (filter is_show t).

(** The loop of the driver over a sequence of orders; [main] is
    [driver_loop orders]. *)
Definition driver_loop (l : list Z) : M unit :=
  for_ l (fun order =>
    k <- py_int (log2 order) ;;
    plot_riemann order None None (ttl k order)).

(** * Properties *)

(** ** Boolean comparisons *)

Lemma Rltb_true x y : Rltb x y = true <-> x < y.
Proof. unfold Rltb. destruct (Rlt_dec x y); split; auto; discriminate. Qed.

Lemma Rltb_false x y : Rltb x y = false <-> y <= x.
Proof.
  unfold Rltb. destruct (Rlt_dec x y); split; auto; try discriminate; lra.
Qed.

(** ** Arrays: reading one element *)

Lemma nth_error_zip_with {A B C : Type} (f : A -> B -> C) l1 l2 i :
  nth_error (zip_with f l1 l2) i =
  match nth_error l1 i, nth_error l2 i with
  | Some a, Some b => Some (f a b)
  | _, _ => None
  end.
Proof.
  revert l2 i. induction l1 as [|a l1 IH]; intros [|b l2] [|i]; cbn;
    try reflexivity.
  - destruct (nth_error l1 i); reflexivity.
  - apply IH.
Qed.

Lemma lookup2_amap {A B : Type} (f : A -> B) (a : arr A) i j :
  lookup2 (amap f a) i j = option_map f (lookup2 a i j).
Proof.
  unfold lookup2, amap. rewrite nth_error_map.
  destruct (nth_error a i) as [row|]; cbn; [apply nth_error_map | reflexivity].
Qed.

Lemma lookup2_amap2 {A B C : Type} (f : A -> B -> C) (a : arr A) (b : arr B)
    i j :
  lookup2 (amap2 f a b) i j =
  match lookup2 a i j, lookup2 b i j with
  | Some x, Some y => Some (f x y)
  | _, _ => None
  end.
Proof.
  unfold lookup2, amap2. rewrite nth_error_zip_with.
  destruct (nth_error a i) as [ra|], (nth_error b i) as [rb|]; cbn;
    try reflexivity.
  - apply nth_error_zip_with.
  - destruct (nth_error ra j); reflexivity.
Qed.

(** ** The grid *)


Lemma nth_error_linspace a b n i :
  nth_error (linspace a b n) i =
  if (i <? n)%nat then Some (a + INR i * ((b - a) / INR (n - 1))) else None.
Proof.
  unfold linspace. rewrite nth_error_map, nth_error_seq.
  destruct (i <? n)%nat; reflexivity.
Qed.

Lemma lookup2_TH tm i j :
  lookup2 (TH tm) i j =
  match nth_error (th tm) i with
  | Some t => if (j <? 160)%nat then Some t else None
  | None => None
  end.
Proof.
  unfold lookup2, TH, meshgrid, snd. rewrite nth_error_map.
  destruct (nth_error (th tm) i) as [t|]; [|reflexivity].
  unfold option_map. rewrite nth_error_map. unfold r.
  rewrite nth_error_linspace. destruct (j <? 160)%nat; reflexivity.
Qed.

Lemma lookup2_Rm tm i j :
  lookup2 (Rm tm) i j =
  if (i <? 1600)%nat then nth_error r j else None.
Proof.
  unfold lookup2, Rm, meshgrid, fst. rewrite nth_error_map.
  unfold th at 1. rewrite nth_error_linspace.
  destruct (i <? 1600)%nat; reflexivity.
Qed.

(** The two coordinate arrays have the same shape. *)
Lemma lookup2_Rm_of_TH tm i j t :
  lookup2 (TH tm) i j = Some t -> exists rho, lookup2 (Rm tm) i j = Some rho.
Proof.
  rewrite lookup2_TH, lookup2_Rm. unfold th at 1, r.
  rewrite !nth_error_linspace.
  destruct (i <? 1600)%nat; [|discriminate].
  destruct (j <? 160)%nat; [|discriminate]. eauto.
Qed.

(** A mesh angle is one of the angle samples. *)
Lemma lookup2_TH_In tm i j t :
  lookup2 (TH tm) i j = Some t -> In t (th tm).
Proof.
  rewrite lookup2_TH. destruct (nth_error (th tm) i) as [t'|] eqn:E;
    [|discriminate].
  destruct (j <? 160)%nat; [|discriminate].
  intros [= <-]. eapply nth_error_In; eauto.
Qed.

Lemma lookup2_TH_sample tm i j :
  (i < 1600)%nat -> (j < 160)%nat ->
  lookup2 (TH tm) i j = Some (INR i * (tm / 1599)).
Proof.
  intros Hi Hj. rewrite lookup2_TH. unfold th. rewrite nth_error_linspace.
  apply Nat.ltb_lt in Hi, Hj. rewrite Hi, Hj. f_equal.
  replace (INR (1600 - 1)) with 1599.
  - lra.
  - replace (1600 - 1)%nat with (Z.to_nat 1599) by lia.
    rewrite INR_IZR_INZ, Z2Nat.id by lia. reflexivity.
Qed.

Lemma lookup2_TH_last tm j :
  (j < 160)%nat -> lookup2 (TH tm) 1599 j = Some tm.
Proof.
  intros Hj. rewrite lookup2_TH_sample by (auto; lia). f_equal.
  replace (INR 1599) with 1599.
  - field.
  - replace 1599%nat with (Z.to_nat 1599) by lia.
    rewrite INR_IZR_INZ, Z2Nat.id by lia. reflexivity.
Qed.

Lemma lookup2_TH_first tm j :
  (j < 160)%nat -> lookup2 (TH tm) 0 j = Some 0.
Proof.
  intros Hj. rewrite lookup2_TH_sample by (auto; lia). f_equal.
  change (INR 0) with 0. lra.
Qed.

(** ** The element-wise reading of the arrays of one call *)

Lemma lookup2_sheet_idx tm sheets i j :
  lookup2 (sheet_idx tm sheets) i j =
  option_map (idx_at sheets) (lookup2 (TH tm) i j).
Proof.
  unfold sheet_idx. rewrite !lookup2_amap.
  destruct (lookup2 (TH tm) i j); reflexivity.
Qed.

Lemma lookup2_in_sheet tm sheets s i j :
  lookup2 (in_sheet tm sheets s) i j =
  option_map (inside_at sheets s) (lookup2 (TH tm) i j).
Proof.
  unfold in_sheet. rewrite !lookup2_amap2, !lookup2_amap, lookup2_sheet_idx.
  destruct (lookup2 (TH tm) i j); reflexivity.
Qed.

Lemma lookup2_H order tm i j :
  lookup2 (H order tm) i j =
  option_map (fun t => true_divide t order) (lookup2 (TH tm) i j).
Proof. unfold H. apply lookup2_amap. Qed.

Lemma lookup2_Hm order tm sheets s i j t :
  lookup2 (TH tm) i j = Some t ->
  lookup2 (Hm order tm sheets s) i j =
  Some (where_ (inside_at sheets s t)
               (add (true_divide t order) (0.03 * IZR s)) NaN).
Proof.
  intros E. unfold Hm.
  rewrite lookup2_amap2, lookup2_in_sheet, lookup2_H, E. reflexivity.
Qed.

Lemma lookup2_Xm tm sheets s i j t rho :
  lookup2 (TH tm) i j = Some t -> lookup2 (Rm tm) i j = Some rho ->
  lookup2 (Xm tm sheets s) i j =
  Some (where_ (inside_at sheets s t) (Fin (rho * cos t)) NaN).
Proof.
  intros Et Er. unfold Xm, X.
  rewrite !lookup2_amap2, lookup2_in_sheet, Et, Er. reflexivity.
Qed.

Lemma lookup2_Ym tm sheets s i j t rho :
  lookup2 (TH tm) i j = Some t -> lookup2 (Rm tm) i j = Some rho ->
  lookup2 (Ym tm sheets s) i j =
  Some (where_ (inside_at sheets s t) (Fin (rho * sin t)) NaN).
Proof.
  intros Et Er. unfold Ym, Y.
  rewrite !lookup2_amap2, lookup2_in_sheet, Et, Er. reflexivity.
Qed.

Lemma excluded_of_outside order tm sheets s i j t :
  lookup2 (TH tm) i j = Some t -> inside_at sheets s t = false ->
  excluded order tm sheets s i j.
Proof.
  intros Et Hout. destruct (lookup2_Rm_of_TH _ _ _ _ Et) as [rho Er].
  unfold excluded.
  rewrite lookup2_in_sheet, (lookup2_Hm _ _ _ _ _ _ _ Et),
    (lookup2_Xm _ _ _ _ _ _ _ Et Er), (lookup2_Ym _ _ _ _ _ _ _ Et Er), Et.
  cbn. rewrite Hout. auto.
Qed.

(** ** Floors, truncation and the bands *)

Lemma trunc_IZR z : trunc (IZR z) = z.
Proof.
  unfold trunc. destruct (Rltb (IZR z) 0).
  - apply Zceil_eq. lra.
  - apply ZfloorZ.
Qed.

Lemma fits_int64_iff n :
  fits_int64 n = true <-> (- 2 ^ 63 <= n < 2 ^ 63)%Z.
Proof.
  unfold fits_int64, int64_min, int64_max.
  rewrite andb_true_iff, !Z.leb_le. lia.
Qed.

Lemma astype_int_IZR z : fits_int64 z = true -> astype_int (IZR z) = z.
Proof. intros Hz. unfold astype_int. now rewrite trunc_IZR, Hz. Qed.


Lemma idx_at_floor_mod sheets t :
  (sheets <> 0)%Z ->
  (- 2 ^ 63 <= Zfloor (t / (2 * PI)) < 2 ^ 63)%Z ->
  idx_at sheets t = (Zfloor (t / (2 * PI)) mod sheets)%Z.
Proof.
  intros Hs Hq. unfold idx_at, floor_divide, mod_.
  rewrite astype_int_IZR by now apply fits_int64_iff.
  apply Z.eqb_neq in Hs. now rewrite Hs.
Qed.

Lemma gap_pos : 0 < gap.
Proof. unfold gap. lra. Qed.

Lemma two_pi_pos : 0 < 2 * PI.
Proof. pose proof PI_RGT_0. lra. Qed.

Lemma two_pi_le (a b : Z) : (a <= b)%Z -> 2 * PI * IZR a <= 2 * PI * IZR b.
Proof.
  intros Hab. apply Rmult_le_compat_l; [pose proof two_pi_pos; lra|].
  now apply IZR_le.
Qed.

(** The trimmed band of a lower sheet ends before the trimmed band of a
    higher sheet begins. *)
Lemma band_order (s1 s2 : Z) : (s1 < s2)%Z -> hi s1 < lo s2.
Proof.
  intros Hlt. unfold hi, lo. pose proof gap_pos.
  assert (2 * PI * IZR (s1 + 1) <= 2 * PI * IZR s2) by (apply two_pi_le; lia).
  lra.
Qed.

Lemma inside_at_true sheets s t :
  inside_at sheets s t = true <->
  idx_at sheets t = s /\ lo s < t /\ t < hi s.
Proof.
  unfold inside_at, Rgtb. rewrite !andb_true_iff, Z.eqb_eq, !Rltb_true.
  tauto.
Qed.

Lemma inside_at_outside_band sheets s t :
  ~ (lo s < t < hi s) -> inside_at sheets s t = false.
Proof.
  intros Hn. destruct (inside_at sheets s t) eqn:E; [|reflexivity].
  apply inside_at_true in E. tauto.
Qed.

(** ** Sheet classification *)




(** C3. Two distinct sheets never both mark a mesh point as inside: the
    masks of [s1] and [s2] are not both true at one point, and no angle
    lies in both gap-trimmed bands. *)
Theorem sheet_bands_disjoint (tm : R) (sheets s1 s2 : Z) (i j : nat) (t : R) :
  s1 <> s2 ->
  ~ (lookup2 (in_sheet tm sheets s1) i j = Some true /\
     lookup2 (in_sheet tm sheets s2) i j = Some true) /\
  ~ (lo s1 < t < hi s1 /\ lo s2 < t < hi s2).
Proof.
  intros Hne. split.
  - rewrite !lookup2_in_sheet.
    destruct (lookup2 (TH tm) i j) as [u|]; cbn; [|intros [[=] _]].
    intros [[= H1] [= H2]].
    apply inside_at_true in H1, H2. destruct H1 as [H1 _], H2 as [H2 _].
    congruence.
  - intros [[Hl1 Hh1] [Hl2 Hh2]].
    destruct (Z.lt_total s1 s2) as [Hlt | [Heq | Hgt]].
    + pose proof (band_order s1 s2 Hlt). lra.
    + contradiction.
    + pose proof (band_order s2 s1 Hgt). lra.
Qed.

Lemma sheet_bands_disjoint_witness :
  ~ (lookup2 (in_sheet (4 * PI) 2 0) 800 0 = Some true /\
     lookup2 (in_sheet (4 * PI) 2 1) 800 0 = Some true) /\
  ~ (lo 0 < 7 < hi 0 /\ lo 1 < 7 < hi 1).
Proof. apply (sheet_bands_disjoint (4 * PI) 2 0 1 800 0 7). lia. Defined.

(** ** The branch-cut gap *)

(** C4. A mesh point whose angle is within [gap] of a multiple of
    [2 pi] is outside the mask of every sheet [s], and is NaN in the
    three arrays drawn for [s]. *)
Theorem gap_points_excluded (order : Z) (tm : R) (sheets s : Z) (i j : nat)
    (t : R) (k : Z) :
  lookup2 (TH tm) i j = Some t ->
  Rabs (t - 2 * PI * IZR k) <= gap ->
  excluded order tm sheets s i j.
Proof.
  intros Et Hnear. apply (excluded_of_outside _ _ _ _ _ _ t Et).
  apply inside_at_outside_band. intros [Hlo Hhi].
  assert (Hk : - gap <= t - 2 * PI * IZR k <= gap).
  { revert Hnear. unfold Rabs. destruct (Rcase_abs _); lra. }
  unfold lo, hi in *.
  destruct (Z_le_gt_dec k s) as [Hks | Hks].
  - pose proof (two_pi_le k s Hks). lra.
  - assert (2 * PI * IZR (s + 1) <= 2 * PI * IZR k) by (apply two_pi_le; lia).
    lra.
Qed.

Lemma gap_points_excluded_witness : excluded 2 (4 * PI) 2 1 0 0.
Proof.
  apply (gap_points_excluded 2 (4 * PI) 2 1 0 0 0 0).
  - apply lookup2_TH_first. lia.
  - rewrite Rmult_0_r, Rminus_0_r, Rabs_R0. unfold gap. lra.
Defined.

(** C10. A mesh point whose angle is at least [2 pi * sheets] is outside
    the mask of every sheet [s] of the loop ([0 <= s < sheets]), and is NaN
    in the three arrays drawn for [s]: the index wraps around, the band
    test does not. *)
Theorem beyond_last_band_excluded (order : Z) (tm : R) (sheets s : Z)
    (i j : nat) (t : R) :
  (0 <= s < sheets)%Z ->
  lookup2 (TH tm) i j = Some t ->
  2 * PI * IZR sheets <= t ->
  excluded order tm sheets s i j.
Proof.
  intros Hs Et Hbig. apply (excluded_of_outside _ _ _ _ _ _ t Et).
  apply inside_at_outside_band. intros [_ Hhi]. unfold hi in Hhi.
  assert (2 * PI * IZR (s + 1) <= 2 * PI * IZR sheets)
    by (apply two_pi_le; lia).
  pose proof gap_pos. lra.
Qed.

Lemma beyond_last_band_excluded_witness : excluded 1 (4 * PI) 1 0 1599 0.
Proof.
  apply (beyond_last_band_excluded 1 (4 * PI) 1 0 1599 0 (4 * PI)).
  - lia.
  - apply lookup2_TH_last. lia.
  - pose proof PI_RGT_0. lra.
Defined.

(** ** Heights *)

(** C6. With [order > 0] the height array is finite, holds
    [theta / order] at every mesh point, and does not decrease when the
    angle increases. *)
Theorem height_monotone (order : Z) (tm : R) (i1 j1 i2 j2 : nat) (t1 t2 : R) :
  (0 < order)%Z ->
  lookup2 (TH tm) i1 j1 = Some t1 ->
  lookup2 (TH tm) i2 j2 = Some t2 ->
  t1 < t2 ->
  exists h1 h2 : R,
    lookup2 (H order tm) i1 j1 = Some (Fin h1) /\
    lookup2 (H order tm) i2 j2 = Some (Fin h2) /\
    h1 = t1 / IZR order /\ h2 = t2 / IZR order /\ h1 <= h2.
Proof.
  intros Ho E1 E2 Hlt. exists (t1 / IZR order), (t2 / IZR order).
  rewrite !lookup2_H, E1, E2. unfold true_divide. cbn.
  assert ((order =? 0)%Z = false) as -> by (apply Z.eqb_neq; lia).
  repeat split.
  assert (0 < IZR order) by (apply IZR_lt; lia).
  unfold Rdiv. apply Rmult_le_compat_r; [|lra].
  left. now apply Rinv_0_lt_compat.
Qed.

Lemma height_monotone_witness :
  exists h1 h2 : R,
    lookup2 (H 2 (4 * PI)) 0 0 = Some (Fin h1) /\
    lookup2 (H 2 (4 * PI)) 1599 0 = Some (Fin h2) /\
    h1 = 0 / IZR 2 /\ h2 = 4 * PI / IZR 2 /\ h1 <= h2.
Proof.
  apply (height_monotone 2 (4 * PI) 0 0 1599 0 0 (4 * PI)).
  - lia.
  - apply lookup2_TH_first. lia.
  - apply lookup2_TH_last. lia.
  - pose proof PI_RGT_0. lra.
Defined.

(** C7. In a call with [order = 4] and [sheets = 4], a mesh point of
    angle [7 pi] has sheet index 3, is inside the mask of sheet 3, and its
    drawn height is [7 pi / 4 + 0.09]. *)
Theorem scenario_order4_angle_7pi (tm : R) (i j : nat) :
  lookup2 (TH tm) i j = Some (7 * PI) ->
  lookup2 (sheet_idx tm 4) i j = Some 3%Z /\
  lookup2 (in_sheet tm 4 3) i j = Some true /\
  lookup2 (Hm 4 tm 4 3) i j = Some (Fin (7 * PI / 4 + 0.09)).
Proof.
  intros Et. pose proof PI_RGT_0 as Hpi. pose proof PI_4 as Hpi4.
  assert (Hidx : idx_at 4 (7 * PI) = 3%Z).
  { assert (Hq : Zfloor (7 * PI / (2 * PI)) = 3%Z).
    { apply Zfloor_eq.
      replace (7 * PI / (2 * PI)) with (7 / 2) by (field; lra). lra. }
    rewrite idx_at_floor_mod by (rewrite ?Hq; lia).
    rewrite Hq. reflexivity. }
  assert (Hin : inside_at 4 3 (7 * PI) = true).
  { apply inside_at_true. unfold lo, hi, gap.
    change (3 + 1)%Z with 4%Z.
    assert (1 < PI) by (pose proof PI2_1; lra).
    repeat split; [assumption | lra | lra]. }
  rewrite lookup2_sheet_idx, lookup2_in_sheet, (lookup2_Hm _ _ _ _ _ _ _ Et), Et.
  unfold option_map. rewrite Hidx, Hin. repeat split.
  unfold true_divide, add, where_. cbn. do 2 f_equal. lra.
Qed.

Lemma scenario_order4_angle_7pi_witness :
  lookup2 (sheet_idx (7 * PI) 4) 1599 0 = Some 3%Z /\
  lookup2 (in_sheet (7 * PI) 4 3) 1599 0 = Some true /\
  lookup2 (Hm 4 (7 * PI) 4 3) 1599 0 = Some (Fin (7 * PI / 4 + 0.09)).
Proof.
  apply (scenario_order4_angle_7pi (7 * PI) 1599 0).
  apply lookup2_TH_last. lia.
Defined.

(** ** Runs *)

Lemma bind_ret_l {T U : Type} (x : T) (f : T -> M U) : bind (ret x) f = f x.
Proof. unfold bind, ret. destruct (f x) as [t r]. reflexivity. Qed.

Lemma for_emit {T : Type} (f : T -> event) (l : list T) :
  for_ l (fun x => emit (f x)) = (map f l, inr tt).
Proof.
  induction l as [|x l IH]; cbn [for_ map].
  - reflexivity.
  - rewrite IH. reflexivity.
Qed.

(** The whole run of [plot_riemann], event by event. *)
Lemma plot_riemann_run (order : Z) (tm : option R) (sh : option Z)
    (title : string) :
  plot_riemann order tm sh title =
  ( grid_events (theta_max_of order tm)
      ++ figure_events order
      ++ map (surface_event order (theta_max_of order tm) (sheets_of order sh))
             (range_down (sheets_of order sh))
      ++ label_events order title
      ++ (if (order =? 0)%Z then []
          else final_events order (theta_max_of order tm) (sheets_of order sh)),
    if (order =? 0)%Z
    then inl ZeroDivisionError
    else inr tt ).
Proof.
  unfold plot_riemann, py_truediv.
  fold (theta_max_of order tm). fold (sheets_of order sh).
  rewrite (for_emit (surface_event order (theta_max_of order tm)
                                   (sheets_of order sh))).
  destruct (order =? 0)%Z; cbn [bind emit ret raise app];
    rewrite ?app_nil_r; reflexivity.
Qed.



Lemma filter_surfaces order tm sheets (l : list Z) :
  filter is_plot_surface (map (surface_event order tm sheets) l) =
  map (surface_event order tm sheets) l.
Proof.
  induction l as [|s l IH]; [reflexivity|].
  cbn [map filter surface_event is_plot_surface]. now f_equal.
Qed.

Lemma surfaces_drawn_plot_riemann order tm sh title :
  surfaces_drawn (trace (plot_riemann order tm sh title)) =
  Z.to_nat (sheets_of order sh).
Proof.
  rewrite plot_riemann_run. unfold trace, fst, surfaces_drawn.
  rewrite !filter_app, filter_surfaces, !length_app, length_map.
  unfold range_down at 1. rewrite length_map, length_seq.
  destruct (order =? 0)%Z; cbn; lia.
Qed.

(** ** Parameter checks *)

(** C1, as the code has it.  [plot_riemann] checks none of its
    parameters.  In a call with a non-positive [order] or [sheets] (both
    int64, the title plain text) the grid is built first.  When [sheets]
    is not positive, which includes a non-positive [order] with the
    default [sheets], no surface is drawn and the call runs to its end
    without an exception for [order <> 0]; for [order = 0] it is stopped by
    the [ZeroDivisionError] of the division in the z limit.  No error
    names a parameter. *)
Theorem nonpositive_parameters_not_rejected (order : Z) (tm : option R)
    (sh : option Z) (title : string) :
  modelled_call order sh title = true ->
  (order <= 0 \/ sheets_of order sh <= 0)%Z ->
  (exists rest : list event,
      trace (plot_riemann order tm sh title) =
      grid_events (theta_max_of order tm) ++ rest) /\
  ((sheets_of order sh <= 0)%Z ->
     surfaces_drawn (trace (plot_riemann order tm sh title)) = 0%nat /\
     outcome (plot_riemann order tm sh title) =
       (if (order =? 0)%Z then inl ZeroDivisionError else inr tt)).
Proof.
  intros _ _. split.
  - rewrite plot_riemann_run. unfold trace, fst. eauto.
  - intros Hs. split.
    + rewrite surfaces_drawn_plot_riemann. lia.
    + rewrite plot_riemann_run. reflexivity.
Qed.

Lemma nonpositive_parameters_not_rejected_witness :
  (exists rest : list event,
      trace (plot_riemann (-1) None None "") =
      grid_events (theta_max_of (-1) None) ++ rest) /\
  ((sheets_of (-1) None <= 0)%Z ->
     surfaces_drawn (trace (plot_riemann (-1) None None "")) = 0%nat /\
     outcome (plot_riemann (-1) None None "") = inr tt).
Proof.
  apply (nonpositive_parameters_not_rejected (-1) None None "").
  - reflexivity.
  - left. lia.
Defined.

(** C1, as stated, fails: the call [plot_riemann(order=-1)] raises
    nothing at all, and in particular does not stop before the grid is
    built. *)
Lemma negative_order_runs_to_completion :
  outcome (plot_riemann (-1) None None "") = inr tt /\
  hd_error (trace (plot_riemann (-1) None None "")) =
    Some (np_linspace 0.15 2.0 160) /\
  ~ (exists e : exn, plot_riemann (-1) None None "" = ([], inl e)).
Proof.
  rewrite plot_riemann_run. cbn [Z.eqb outcome trace snd fst].
  repeat split. intros [e [= ]].
Qed.

(** ** Defaults and the angle samples *)

Lemma INR_1599 : INR (1600 - 1) = 1599.
Proof.
  replace (1600 - 1)%nat with (Z.to_nat 1599) by lia.
  rewrite INR_IZR_INZ, Z2Nat.id by lia. reflexivity.
Qed.

Lemma th_bounds theta_max :
  0 <= theta_max -> Forall (fun t => 0 <= t <= theta_max) (th theta_max).
Proof.
  intros Hpos. apply Forall_forall. intros t Hin.
  apply In_nth_error in Hin. destruct Hin as [i Hi].
  unfold th in Hi. rewrite nth_error_linspace, INR_1599 in Hi.
  destruct (i <? 1600)%nat eqn:E; [|discriminate].
  assert (Ht : t = 0.0 + INR i * ((theta_max - 0.0) / 1599)) by congruence.
  clear Hi. subst t. apply Nat.ltb_lt in E.
  assert (0 <= INR i) by apply pos_INR.
  assert (INR i <= 1599).
  { rewrite <- INR_1599. apply le_INR. lia. }
  replace 0.0 with 0 by lra.
  replace (0 + INR i * ((theta_max - 0) / 1599))
    with (theta_max * (INR i / 1599)) by (field; lra).
  assert (0 <= INR i / 1599 <= 1).
  { split.
    - apply Rmult_le_pos; lra.
    - apply Rmult_le_reg_r with 1599; [lra|]. field_simplify; lra. }
  split.
  - apply Rmult_le_pos; lra.
  - rewrite <- (Rmult_1_r theta_max) at 2.
    apply Rmult_le_compat_l; lra.
Qed.



(** ** The z-axis limit *)







(** ** The driver *)

Lemma ln2_pos : 0 < ln 2.
Proof. pose proof ln_lt_2. lra. Qed.

Lemma ln_double x : 0 < x -> ln (2 * x) = ln 2 + ln x.
Proof. intros Hx. apply ln_mult; lra. Qed.

Lemma py_int_log2_pow2 (n k : Z) :
  (0 < n)%Z -> ln (IZR n) = IZR k * ln 2 -> py_int (log2 n) = ret k.
Proof.
  intros Hn Hln. unfold log2.
  assert ((0 <? n)%Z = true) as -> by (apply Z.ltb_lt; lia).
  unfold py_int. rewrite Hln.
  replace (IZR k * ln 2 / ln 2) with (IZR k)
    by (field; pose proof ln2_pos; lra).
  now rewrite trunc_IZR.
Qed.

Lemma py_int_log2_2 : py_int (log2 2) = ret 1%Z.
Proof. apply py_int_log2_pow2; [lia | lra]. Qed.

Lemma py_int_log2_4 : py_int (log2 4) = ret 2%Z.
Proof.
  apply py_int_log2_pow2; [lia|].
  replace 4 with (2 * 2) by lra. rewrite ln_double by lra. lra.
Qed.

Lemma py_int_log2_8 : py_int (log2 8) = ret 3%Z.
Proof.
  apply py_int_log2_pow2; [lia|].
  replace 8 with (2 * (2 * 2)) by lra. rewrite !ln_double by lra. lra.
Qed.

Lemma py_int_log2_16 : py_int (log2 16) = ret 4%Z.
Proof.
  apply py_int_log2_pow2; [lia|].
  replace 16 with (2 * (2 * (2 * 2))) by lra. rewrite !ln_double by lra. lra.
Qed.

(** C9. The driver goes through the orders 2, 4, 8, 16 in this order; the
    integer logarithms are 1, 2, 3, 4; the title holds the root sign that
    many times; and the run is one call of [plot_riemann] per order, each
    with its title. *)
Theorem driver_orders_and_titles :
  orders = [2; 4; 8; 16]%Z /\
  map (fun order => py_int (log2 order)) orders =
    [ret 1; ret 2; ret 3; ret 4]%Z /\
  map root_sign [1; 2; 3; 4]%Z = ["√"; "√√"; "√√√"; "√√√√"]%string /\
  main =
    (plot_riemann 2 None None "Riemann surface of √z (2 sheets)" ;;
     plot_riemann 4 None None "Riemann surface of √√z (4 sheets)" ;;
     plot_riemann 8 None None "Riemann surface of √√√z (8 sheets)" ;;
     plot_riemann 16 None None "Riemann surface of √√√√z (16 sheets)" ;;
     ret tt).
Proof.
  split; [reflexivity|]. split; [|split; [reflexivity|]].
  - unfold orders. cbn [map].
    now rewrite py_int_log2_2, py_int_log2_4, py_int_log2_8, py_int_log2_16.
  - unfold main, orders. cbn [for_].
    rewrite py_int_log2_2, py_int_log2_4, py_int_log2_8, py_int_log2_16.
    rewrite !bind_ret_l. reflexivity.
Qed.

(** * Further properties of the body of [plot_riemann] *)

(** ** The mesh *)

Lemma INR_159 : INR (160 - 1) = 159.
Proof.
  replace (160 - 1)%nat with (Z.to_nat 159) by lia.
  rewrite INR_IZR_INZ, Z2Nat.id by lia. reflexivity.
Qed.

Lemma lookup2_TH_None tm i j :
  ~ ((i < 1600)%nat /\ (j < 160)%nat) -> lookup2 (TH tm) i j = None.
Proof.
  intros Hn. rewrite lookup2_TH. unfold th. rewrite nth_error_linspace.
  destruct (i <? 1600)%nat eqn:Ei; [|reflexivity].
  destruct (j <? 160)%nat eqn:Ej; [|reflexivity].
  apply Nat.ltb_lt in Ei, Ej. tauto.
Qed.

Lemma lookup2_Rm_sample tm i j :
  (i < 1600)%nat -> (j < 160)%nat ->
  lookup2 (Rm tm) i j = Some (0.15 + INR j * (1.85 / 159)).
Proof.
  intros Hi Hj. rewrite lookup2_Rm. unfold r.
  rewrite nth_error_linspace, INR_159.
  apply Nat.ltb_lt in Hi, Hj. rewrite Hi, Hj. f_equal. lra.
Qed.

(** The mesh is the outer product of the two sample lists: on the grid
    of 1600 rows and 160 columns, the point of row [i] and column [j] has
    the [j]-th radius, [0.15 + j * 1.85 / 159], and the [i]-th angle,
    [i * theta_max / 1599]. *)
Theorem mesh_point_coordinates (tm : R) (i j : nat) :
  (i < 1600)%nat -> (j < 160)%nat ->
  lookup2 (Rm tm) i j = Some (0.15 + INR j * (1.85 / 159)) /\
  lookup2 (TH tm) i j = Some (INR i * (tm / 1599)).
Proof.
  intros Hi Hj. split.
  - now apply lookup2_Rm_sample.
  - now apply lookup2_TH_sample.
Qed.

Lemma mesh_point_coordinates_witness :
  lookup2 (Rm (4 * PI)) 3 2 = Some (0.15 + INR 2 * (1.85 / 159)) /\
  lookup2 (TH (4 * PI)) 3 2 = Some (INR 3 * (4 * PI / 1599)).
Proof. apply (mesh_point_coordinates (4 * PI) 3 2); lia. Defined.

(** The three arrays handed to [plot_surface] for a sheet have an element
    exactly at the 1600 x 160 positions of the mesh, whatever the
    parameters are. *)
Theorem drawn_arrays_shape (order : Z) (tm : R) (sheets s : Z) (i j : nat) :
  ((exists v, lookup2 (Xm tm sheets s) i j = Some v) <->
     (i < 1600)%nat /\ (j < 160)%nat) /\
  ((exists v, lookup2 (Ym tm sheets s) i j = Some v) <->
     (i < 1600)%nat /\ (j < 160)%nat) /\
  ((exists v, lookup2 (Hm order tm sheets s) i j = Some v) <->
     (i < 1600)%nat /\ (j < 160)%nat).
Proof.
  destruct (Nat.lt_ge_cases i 1600) as [Hi | Hi];
    [destruct (Nat.lt_ge_cases j 160) as [Hj | Hj]|].
  - pose proof (lookup2_TH_sample tm i j Hi Hj) as Et.
    pose proof (lookup2_Rm_sample tm i j Hi Hj) as Er.
    rewrite (lookup2_Xm _ _ _ _ _ _ _ Et Er), (lookup2_Ym _ _ _ _ _ _ _ Et Er),
      (lookup2_Hm _ _ _ _ _ _ _ Et).
    repeat split; eauto.
  - assert (Hn : lookup2 (TH tm) i j = None)
      by (apply lookup2_TH_None; lia).
    unfold Xm, Ym, Hm. rewrite !lookup2_amap2, lookup2_in_sheet, Hn. cbn.
    split; [|split]; (split; [intros [v [=]] | intros [? ?]; lia]).
  - assert (Hn : lookup2 (TH tm) i j = None)
      by (apply lookup2_TH_None; lia).
    unfold Xm, Ym, Hm. rewrite !lookup2_amap2, lookup2_in_sheet, Hn. cbn.
    split; [|split]; (split; [intros [v [=]] | intros [? ?]; lia]).
Qed.

(** Every radius of the mesh lies in [[0.15, 2]]: the mesh stays away
    from the branch point at the origin. *)
Theorem radius_bounds (tm : R) (i j : nat) (rho : R) :
  lookup2 (Rm tm) i j = Some rho -> 0.15 <= rho <= 2.
Proof.
  rewrite lookup2_Rm. destruct (i <? 1600)%nat; [|discriminate].
  unfold r. rewrite nth_error_linspace, INR_159.
  destruct (j <? 160)%nat eqn:Ej; [|discriminate].
  intros Hrho.
  assert (Hr : rho = 0.15 + INR j * ((2.0 - 0.15) / 159)) by congruence.
  clear Hrho. apply Nat.ltb_lt in Ej.
  assert (0 <= INR j) by apply pos_INR.
  assert (INR j <= 159).
  { rewrite <- INR_159. apply le_INR. lia. }
  lra.
Qed.

Lemma radius_bounds_witness :
  0.15 <= 0.15 + INR 2 * (1.85 / 159) <= 2.
Proof.
  apply (radius_bounds (4 * PI) 3 2).
  apply lookup2_Rm_sample; lia.
Defined.

(** Polar to Cartesian: at every mesh point the entries of [X] and [Y]
    are [rho cos theta] and [rho sin theta], so [x^2 + y^2 = rho^2]. *)
Theorem cartesian_round_trip (tm : R) (i j : nat) (rho t x y : R) :
  lookup2 (Rm tm) i j = Some rho ->
  lookup2 (TH tm) i j = Some t ->
  lookup2 (X tm) i j = Some x ->
  lookup2 (Y tm) i j = Some y ->
  x = rho * cos t /\ y = rho * sin t /\ x * x + y * y = rho * rho.
Proof.
  intros Er Et. unfold X, Y. rewrite !lookup2_amap2, Er, Et.
  intros [= <-] [= <-]. repeat split.
  pose proof (sin2_cos2 t) as Hsc. unfold Rsqr in Hsc.
  replace (rho * cos t * (rho * cos t) + rho * sin t * (rho * sin t))
    with (rho * rho * (sin t * sin t + cos t * cos t)) by ring.
  rewrite Hsc. ring.
Qed.

Lemma cartesian_round_trip_witness :
  0.15 * cos PI = 0.15 * cos PI /\ 0.15 * sin PI = 0.15 * sin PI /\
  0.15 * cos PI * (0.15 * cos PI) + 0.15 * sin PI * (0.15 * sin PI)
    = 0.15 * 0.15.
Proof.
  assert (Er : lookup2 (Rm PI) 1599 0 = Some 0.15).
  { rewrite lookup2_Rm_sample by lia. f_equal. change (INR 0) with 0. lra. }
  assert (Et : lookup2 (TH PI) 1599 0 = Some PI)
    by (apply lookup2_TH_last; lia).
  apply (cartesian_round_trip PI 1599 0 0.15 PI _ _ Er Et).
  - unfold X. rewrite lookup2_amap2, Er, Et. reflexivity.
  - unfold Y. rewrite lookup2_amap2, Er, Et. reflexivity.
Defined.

(** ** The mask of a sheet *)

Lemma floor_turns (s : Z) (t : R) :
  2 * PI * IZR s <= t < 2 * PI * IZR (s + 1) -> Zfloor (t / (2 * PI)) = s.
Proof.
  intros [Hlo Hhi]. pose proof two_pi_pos as Hp. rewrite plus_IZR in Hhi.
  apply Zfloor_eq. split.
  - apply Rmult_le_reg_r with (2 * PI); [assumption|].
    replace (t / (2 * PI) * (2 * PI)) with t by (field; lra). lra.
  - apply Rmult_lt_reg_r with (2 * PI); [assumption|].
    replace (t / (2 * PI) * (2 * PI)) with t by (field; lra). lra.
Qed.

Lemma idx_at_in_turn (sheets s : Z) (t : R) :
  (0 <= s < sheets)%Z -> (sheets < 2 ^ 63)%Z ->
  2 * PI * IZR s <= t < 2 * PI * IZR (s + 1) -> idx_at sheets t = s.
Proof.
  intros Hs Hfit Ht. pose proof (floor_turns s t Ht) as Hq.
  rewrite idx_at_floor_mod by (rewrite ?Hq; lia).
  rewrite Hq. apply Z.mod_small. lia.
Qed.

Lemma inside_at_band (sheets s : Z) (t : R) :
  (0 <= s < sheets)%Z -> (sheets < 2 ^ 63)%Z ->
  lo s < t < hi s -> inside_at sheets s t = true.
Proof.
  intros Hs Hfit [Hlo Hhi]. apply inside_at_true.
  repeat split; try assumption.
  apply idx_at_in_turn; [assumption | assumption |].
  unfold lo, hi in *. pose proof gap_pos. lra.
Qed.

(** For a sheet [s] of the loop ([0 <= s < sheets], with [sheets] an
    int64 as line 49 needs it) the mask is the trimmed band alone: a mesh
    point is inside the mask exactly when its angle lies strictly between
    [2 pi s + gap] and [2 pi (s + 1) - gap]; the test on the sheet index
    then holds by itself. *)
Theorem mask_is_trimmed_band (tm : R) (sheets s : Z) (i j : nat) (t : R) :
  (0 <= s < sheets)%Z ->
  (sheets < 2 ^ 63)%Z ->
  lookup2 (TH tm) i j = Some t ->
  (lookup2 (in_sheet tm sheets s) i j = Some true <-> lo s < t < hi s).
Proof.
  intros Hs Hfit Et. rewrite lookup2_in_sheet, Et. cbn [option_map]. split.
  - intros [= Hin]. apply inside_at_true in Hin. tauto.
  - intros Hband. f_equal. now apply inside_at_band.
Qed.

Lemma mask_is_trimmed_band_witness :
  lookup2 (in_sheet (3 * PI) 2 1) 1599 0 = Some true <->
  lo 1 < 3 * PI < hi 1.
Proof.
  apply (mask_is_trimmed_band (3 * PI) 2 1 1599 0 (3 * PI)).
  - lia.
  - lia.
  - apply lookup2_TH_last. lia.
Defined.

(** With [order <> 0], a mesh point whose angle lies strictly inside the
    trimmed band of a sheet [s] of the loop (with [sheets] an int64) is
    drawn for that sheet at
    [(rho cos theta, rho sin theta, theta / order + 0.03 s)]. *)
Theorem band_point_is_drawn (order : Z) (tm : R) (sheets s : Z) (i j : nat)
    (rho t : R) :
  order <> 0%Z ->
  (0 <= s < sheets)%Z ->
  (sheets < 2 ^ 63)%Z ->
  lookup2 (Rm tm) i j = Some rho ->
  lookup2 (TH tm) i j = Some t ->
  lo s < t < hi s ->
  lookup2 (Xm tm sheets s) i j = Some (Fin (rho * cos t)) /\
  lookup2 (Ym tm sheets s) i j = Some (Fin (rho * sin t)) /\
  lookup2 (Hm order tm sheets s) i j =
    Some (Fin (t / IZR order + 0.03 * IZR s)).
Proof.
  intros Ho Hs Hfit Er Et Hband.
  rewrite (lookup2_Xm _ _ _ _ _ _ _ Et Er), (lookup2_Ym _ _ _ _ _ _ _ Et Er),
    (lookup2_Hm _ _ _ _ _ _ _ Et).
  rewrite (inside_at_band sheets s t Hs Hfit Hband).
  unfold where_, true_divide.
  apply Z.eqb_neq in Ho. rewrite Ho. auto.
Qed.

Lemma band_point_is_drawn_witness :
  lookup2 (Xm (3 * PI) 2 1) 1599 0 = Some (Fin (0.15 * cos (3 * PI))) /\
  lookup2 (Ym (3 * PI) 2 1) 1599 0 = Some (Fin (0.15 * sin (3 * PI))) /\
  lookup2 (Hm 2 (3 * PI) 2 1) 1599 0 =
    Some (Fin (3 * PI / IZR 2 + 0.03 * IZR 1)).
Proof.
  apply (band_point_is_drawn 2 (3 * PI) 2 1 1599 0 0.15 (3 * PI)).
  - lia.
  - lia.
  - lia.
  - rewrite lookup2_Rm_sample by lia. f_equal. change (INR 0) with 0. lra.
  - apply lookup2_TH_last. lia.
  - unfold lo, hi, gap. change (1 + 1)%Z with 2%Z.
    assert (1 < PI) by (pose proof PI2_1; lra). lra.
Defined.

(** ** The swept angles *)

(** Every angle sample is a fraction of [theta_max]. *)
Lemma th_fraction theta_max t :
  In t (th theta_max) -> exists c : R, 0 <= c <= 1 /\ t = theta_max * c.
Proof.
  intros Hin. apply In_nth_error in Hin. destruct Hin as [i Hi].
  unfold th in Hi. rewrite nth_error_linspace, INR_1599 in Hi.
  destruct (i <? 1600)%nat eqn:E; [|discriminate].
  assert (Ht : t = 0.0 + INR i * ((theta_max - 0.0) / 1599)) by congruence.
  clear Hi. apply Nat.ltb_lt in E.
  assert (0 <= INR i) by apply pos_INR.
  assert (INR i <= 1599).
  { rewrite <- INR_1599. apply le_INR. lia. }
  exists (INR i / 1599). split; [lra|]. rewrite Ht. lra.
Qed.

Lemma mesh_angle_range tm i j t :
  lookup2 (TH tm) i j = Some t -> Rmin 0 tm <= t <= Rmax 0 tm.
Proof.
  intros Et. apply lookup2_TH_In, th_fraction in Et.
  destruct Et as [c [[Hc0 Hc1] ->]].
  unfold Rmin, Rmax. destruct (Rle_dec 0 tm); split; nra.
Qed.

(** A sheet whose trimmed band begins at or beyond the end of the sweep
    is drawn empty: if [theta_max <= 2 pi s + gap] and [s >= 0], every
    mesh point is left out of sheet [s].  In particular nothing is drawn
    for any sheet when [theta_max <= 0]. *)
Theorem sheet_beyond_sweep_is_empty (order : Z) (tm : R) (sheets s : Z)
    (i j : nat) (t : R) :
  (0 <= s)%Z ->
  tm <= lo s ->
  lookup2 (TH tm) i j = Some t ->
  excluded order tm sheets s i j.
Proof.
  intros Hs Htm Et. apply (excluded_of_outside _ _ _ _ _ _ t Et).
  apply inside_at_outside_band. intros [Hlo _].
  apply mesh_angle_range in Et. destruct Et as [_ Hmax].
  assert (0 < lo s).
  { unfold lo. pose proof gap_pos. pose proof (two_pi_le 0 s Hs). lra. }
  unfold Rmax in Hmax. destruct (Rle_dec 0 tm); lra.
Qed.

Lemma sheet_beyond_sweep_is_empty_witness : excluded 2 (2 * PI) 2 1 1599 0.
Proof.
  apply (sheet_beyond_sweep_is_empty 2 (2 * PI) 2 1 1599 0 (2 * PI)).
  - lia.
  - unfold lo, gap. lra.
  - apply lookup2_TH_last. lia.
Defined.

(** ** Heights and the z limit *)



(** ** The default call covers the sweep *)

(** In a call [plot_riemann(order)] with [order > 0] (an int64) and the
    defaults, every mesh point either lies within [gap] of a multiple of
    [2 pi] or is inside the mask of a sheet of the loop: the sheets and
    the cuts between them cover the whole sweep. *)
Theorem default_call_covers_sweep (order : Z) (i j : nat) (t : R) :
  (0 < order < 2 ^ 63)%Z ->
  lookup2 (TH (theta_max_of order None)) i j = Some t ->
  (exists k : Z, Rabs (t - 2 * PI * IZR k) <= gap) \/
  (exists s : Z,
      (0 <= s < order)%Z /\
      lookup2 (in_sheet (theta_max_of order None) (sheets_of order None) s)
              i j = Some true).
Proof.
  intros Ho Et. cbn [theta_max_of sheets_of] in *.
  pose proof two_pi_pos as Hp. pose proof gap_pos as Hg.
  assert (Htm : 0 <= 2 * PI * IZR order).
  { apply Rmult_le_pos; [lra|]. apply IZR_le. lia. }
  pose proof (th_bounds _ Htm) as Hb. rewrite Forall_forall in Hb.
  specialize (Hb t (lookup2_TH_In _ _ _ _ Et)). destruct Hb as [Ht0 Ht1].
  set (s := Zfloor (t / (2 * PI))).
  pose proof (Zfloor_bound (t / (2 * PI))) as [Hf1 Hf2]. fold s in Hf1, Hf2.
  assert (Hq : 2 * PI * (t / (2 * PI)) = t) by (field; lra).
  assert (Hs1 : 2 * PI * IZR s <= t).
  { rewrite <- Hq. apply Rmult_le_compat_l; lra. }
  assert (Hs2 : t < 2 * PI * IZR (s + 1)).
  { rewrite plus_IZR, <- Hq. apply Rmult_lt_compat_l; lra. }
  assert (Hs0 : (0 <= s)%Z).
  { apply Zfloor_lub. apply Rmult_le_pos; [lra|].
    left. apply Rinv_0_lt_compat. lra. }
  destruct (Z_lt_ge_dec s order) as [Hlt | Hge].
  - destruct (Rle_dec t (lo s)) as [Hnear | Hfar].
    + left. exists s. apply Rabs_le. unfold lo in Hnear. lra.
    + destruct (Rle_dec (hi s) t) as [Hnear' | Hfar'].
      * left. exists (s + 1)%Z. apply Rabs_le. unfold hi in Hnear'. lra.
      * right. exists s. split; [lia|].
        rewrite lookup2_in_sheet, Et. cbn [option_map]. f_equal.
        apply inside_at_band; [lia | lia | lra].
  - left. exists order. apply Rabs_le.
    assert (2 * PI * IZR order <= 2 * PI * IZR s) by (apply two_pi_le; lia).
    lra.
Qed.

Lemma default_call_covers_sweep_witness :
  (exists k : Z, Rabs (IZR 2 * 2 * PI - 2 * PI * IZR k) <= gap) \/
  (exists s : Z,
      (0 <= s < 2)%Z /\
      lookup2 (in_sheet (theta_max_of 2 None) (sheets_of 2 None) s)
              1599 0 = Some true).
Proof.
  apply (default_call_covers_sweep 2 1599 0 (IZR 2 * 2 * PI)).
  - lia.
  - cbn [theta_max_of]. rewrite lookup2_TH_last by lia. f_equal. lra.
Defined.

(** ** The drawing loop *)





(** ** Completion *)

Lemma filter_show_surfaces order tm sheets (l : list Z) :
  filter is_show (map (surface_event order tm sheets) l) = [].
Proof. induction l as [|s l IH]; [reflexivity | exact IH]. Qed.

Lemma figures_shown_plot_riemann order tm sh title :
  figures_shown (trace (plot_riemann order tm sh title)) =
  if (order =? 0)%Z then 0%nat else 1%nat.
Proof.
  rewrite plot_riemann_run. unfold trace, fst, figures_shown.
  rewrite !filter_app, filter_show_surfaces.
  destruct (order =? 0)%Z; reflexivity.
Qed.

Lemma outcome_plot_riemann order tm sh title :
  outcome (plot_riemann order tm sh title) =
  if (order =? 0)%Z then inl ZeroDivisionError else inr tt.
Proof. rewrite plot_riemann_run. reflexivity. Qed.

(** ** The driver loop *)

Lemma bind_ok {T U : Type} (m : M T) (f : T -> M U) (x : T) :
  outcome m = inr x ->
  bind m f = (trace m ++ trace (f x), outcome (f x)).
Proof.
  destruct m as [t [e | y]]; cbn; [discriminate|].
  intros [= ->]. destruct (f x). reflexivity.
Qed.

Lemma surfaces_drawn_app t1 t2 :
  surfaces_drawn (t1 ++ t2) = (surfaces_drawn t1 + surfaces_drawn t2)%nat.
Proof. unfold surfaces_drawn. now rewrite filter_app, length_app. Qed.

Lemma figures_shown_app t1 t2 :
  figures_shown (t1 ++ t2) = (figures_shown t1 + figures_shown t2)%nat.
Proof. unfold figures_shown. now rewrite filter_app, length_app. Qed.

Lemma driver_loop_cons (order : Z) (l : list Z) :
  (0 < order)%Z ->
  exists title : string,
    driver_loop (order :: l) =
    (trace (plot_riemann order None None title) ++ trace (driver_loop l),
     outcome (driver_loop l)).
Proof.
  intros Ho. exists (ttl (trunc (ln (IZR order) / ln 2)) order).
  assert (Hz : (order =? 0)%Z = false) by (apply Z.eqb_neq; lia).
  unfold driver_loop. cbn [for_]. unfold log2 at 1.
  assert ((0 <? order)%Z = true) as -> by (apply Z.ltb_lt; lia).
  cbn [py_int]. rewrite bind_ret_l.
  rewrite (bind_ok _ _ tt) by (rewrite outcome_plot_riemann, Hz; reflexivity).
  reflexivity.
Qed.

Lemma driver_loop_run (l : list Z) :
  Forall (fun order => (0 < order < 2 ^ 63)%Z) l ->
  outcome (driver_loop l) = inr tt /\
  figures_shown (trace (driver_loop l)) = List.length l /\
  surfaces_drawn (trace (driver_loop l)) = list_sum (map Z.to_nat l).
Proof.
  induction 1 as [|order l Ho _ IH].
  - repeat split.
  - destruct IH as [IHo [IHf IHs]].
    destruct (driver_loop_cons order l) as [title E]; [lia|].
    assert (Hz : (order =? 0)%Z = false) by (apply Z.eqb_neq; lia).
    assert (Et : trace (driver_loop (order :: l)) =
                 trace (plot_riemann order None None title)
                   ++ trace (driver_loop l)) by (rewrite E; reflexivity).
    assert (Eo : outcome (driver_loop (order :: l)) = outcome (driver_loop l))
      by (rewrite E; reflexivity).
    rewrite Et, Eo, surfaces_drawn_app, figures_shown_app.
    rewrite figures_shown_plot_riemann, surfaces_drawn_plot_riemann, Hz.
    cbn [sheets_of map list_sum List.length]. rewrite IHo, IHf, IHs.
    repeat split.
Qed.

(** The driver as it is written, over the orders 2, 4, 8, 16, raises
    nothing, shows four figures, one per order, and draws
    [2 + 4 + 8 + 16 = 30] surfaces. *)
Theorem driver_run_completes :
  outcome main = inr tt /\
  figures_shown (trace main) = 4%nat /\
  surfaces_drawn (trace main) = 30%nat.
Proof.
  apply (driver_loop_run orders).
  unfold orders. repeat constructor.
Qed.


